(** * GeneSim-Lab: a shallow embedding of the Mendelian simulation engine

    The development follows [main.py]: gene definitions ([Gene]), the
    genotype validator ([GeneComposition.validate]), populations
    ([SimulationGroup]) and the command layer ([GeneticSimulationSystem]).

    Conventions of the embedding.
    - A Python [str] is a [string]; the text handled by the engine is taken
      over the one-byte alphabet, where [str.upper] and [str.lower] act on
      the letters a-z and A-Z and fix every other character.
    - A [raise] is a value [Raise e]; the state at the point of the raise
      is returned with it, because several methods mutate their object
      before they fail.
    - The dictionaries [genes] and [groups] are finite maps keyed by
      strings; [set()] is a finite set.
    - The module-level pseudo-random generator is a tape of natural numbers
      consumed from the front: [randbelow n] is the next number modulo [n].
      Quantifying over tapes quantifies over all outcomes of the draws. *)

From Stdlib Require Import ZArith Ascii String.
From stdpp Require Import base option list gmap strings fin_maps.

Local Open Scope string_scope.
Local Open Scope list_scope.

(** ** Characters and strings *)

Definition upper_char (c : ascii) : ascii :=
  let n := N_of_ascii c in
  if ((97 <=? n) && (n <=? 122))%N then ascii_of_N (n - 32) else c.

Definition lower_char (c : ascii) : ascii :=
  let n := N_of_ascii c in
  if ((65 <=? n) && (n <=? 90))%N then ascii_of_N (n + 32) else c.

(** [s.upper()] and [s.lower()] *)
Fixpoint upper (s : string) : string :=
  match s with
  | EmptyString => EmptyString
  | String c s' => String (upper_char c) (upper s')
  end.

Fixpoint lower (s : string) : string :=
  match s with
  | EmptyString => EmptyString
  | String c s' => String (lower_char c) (lower s')
  end.

(** The one-character string made of [c]. *)
Definition ch (c : ascii) : string := String c EmptyString.

(** The characters of a string, for indexing: [s[i]] is [chars s !! i]. *)
Definition chars (s : string) : list ascii := list_ascii_of_string s.

(** [''.join(l)] for a list of one-character strings given as characters. *)
Definition join (l : list ascii) : string := string_of_list_ascii l.

(** [genes_str[i].upper()]: the dictionary key of the locus starting with [c]. *)
Definition symbol_of (c : ascii) : string := ch (upper_char c).

(** ** Exceptions *)

Inductive invalid_gene := NotSingleChar | SameAllele.

(** The kinds of [ValueError] raised by the source (it tells them apart by
    message only). *)
Inductive error :=
  | InvalidGene (why : invalid_gene)
  | DuplicateGene
  | BadArgumentCount
  | MalformedGenotype
  | UnknownGene (gene_symbol : string)
  | InvalidAllele (allele1 allele2 : ascii)
  | BadAlleleOrder (dominant recessive : ascii)
  | DuplicateLocus (gene_symbol : string)
  | LengthMismatch (required : nat)
  | InvalidMode
  | InsufficientPopulation
  | InsufficientQuantity (current_count : nat)
  | UnknownGroup
  | DuplicateGroup
  | NoGroupSelected
  | InvalidGenotype (cause : error)
  | BadOperation.

(** The exception classes that occur: [ValueError] with its message,
    [KeyError] of a failed dictionary subscript, [IndexError] of a string
    subscript out of range, [NameError] of an unbound global name. *)
Inductive exn :=
  | ValueError (e : error)
  | KeyError (key : string)
  | IndexError
  | NameError (name : string).

Definition is_ValueError (x : exn) : bool :=
  match x with ValueError _ => true | _ => false end.

Inductive result (A : Type) :=
  | Ok (a : A)
  | Raise (x : exn).
Arguments Ok {A} a.
Arguments Raise {A} x.

Definition is_Ok {A} (r : result A) : bool :=
  match r with Ok _ => true | Raise _ => false end.

(** ** A state and exception monad

    [M S A] is a computation over a mutable state [S] that returns an [A]
    or raises; the state reached when the exception is raised is kept. *)

Definition M (S A : Type) : Type := S -> result A * S.

Definition ret {S A} (a : A) : M S A := fun s => (Ok a, s).

Definition bind {S A B} (m : M S A) (k : A -> M S B) : M S B :=
  fun s =>
    match m s with
    | (Ok a, s') => k a s'
    | (Raise x, s') => (Raise x, s')
    end.

Definition raise {S A} (x : exn) : M S A := fun s => (Raise x, s).

Definition get {S} : M S S := fun s => (Ok s, s).

Definition modify {S} (f : S -> S) : M S unit := fun s => (Ok tt, f s).

(** [try: m except <class selected by handles> as x: h x] *)
Definition try_except {S A} (m : M S A) (handles : exn -> bool)
    (h : exn -> M S A) : M S A :=
  fun s =>
    match m s with
    | (Ok a, s') => (Ok a, s')
    | (Raise x, s') => if handles x then h x s' else (Raise x, s')
    end.

(** [for _ in range(n): body] *)
Fixpoint for_range {S} (n : nat) (body : M S unit) : M S unit :=
  match n with
  | O => ret tt
  | S n' => bind body (fun _ => for_range n' body)
  end.

Declare Scope monad_scope.
Delimit Scope monad_scope with monad.
Notation "x <~ m ;; k" := (bind m (fun x => k))
  (at level 20, m at level 99, k at level 200, only parsing) : monad_scope.
Notation "m ;;; k" := (bind m (fun _ => k))
  (at level 100, k at level 200, only parsing, right associativity) : monad_scope.
Local Open Scope monad_scope.

(** ** Gene definitions *)

(** After [Gene.__init__] the two alleles are one-character strings, so
    the record stores them as characters. *)
Record Gene := mkGene {
  dominant : ascii;
  recessive : ascii;
  dom_trait : string;
  rec_trait : string
}.

Global Instance Gene_eq_dec : EqDecision Gene.
Proof. solve_decision. Defined.

(** [Gene.__init__] *)
Definition Gene_init (dom rec dom_t rec_t : string) : result Gene :=
  match chars dom, chars rec with
  | [d], [r] =>
      if decide (dom = rec) then Raise (ValueError (InvalidGene SameAllele))
      else Ok (mkGene (upper_char d) (lower_char r) dom_t rec_t)
  | _, _ => Raise (ValueError (InvalidGene NotSingleChar))
  end.

(** [Gene.get_phenotype]: [self.dominant in genotype] *)
Definition get_phenotype (gene : Gene) (genotype : list ascii) : string :=
  if decide (dominant gene ∈ genotype) then dom_trait gene else rec_trait gene.

(** [Gene.validate_allele] *)
Definition validate_allele (gene : Gene) (allele : ascii) : bool :=
  bool_decide (allele = dominant gene) || bool_decide (allele = recessive gene).

(** ** Genotype validation *)

(** The loop of [GeneComposition.validate]: loci are read two characters at
    a time; the parity test before the loop guarantees that no single
    character is left over. *)
Fixpoint validate_loci (cs : list ascii) (genes_dict : gmap string Gene)
    : result unit :=
  match cs with
  | allele1 :: allele2 :: rest =>
      let gene_symbol := symbol_of allele1 in
      match genes_dict !! gene_symbol with
      | None => Raise (ValueError (UnknownGene gene_symbol))
      | Some gene =>
          if negb (validate_allele gene allele1 && validate_allele gene allele2)
          then Raise (ValueError (InvalidAllele allele1 allele2))
          else if bool_decide (allele2 = dominant gene)
                  && bool_decide (allele1 = recessive gene)
          then Raise (ValueError (BadAlleleOrder (dominant gene) (recessive gene)))
          else validate_loci rest genes_dict
      end
  | _ => Ok tt
  end.

(** [GeneComposition.validate] (the constructor only stores the string and
    calls it). *)
Definition validate (genes_str : string) (genes_dict : gmap string Gene)
    : result unit :=
  if Nat.odd (String.length genes_str)
  then Raise (ValueError MalformedGenotype)
  else validate_loci (chars genes_str) genes_dict.

(** ** The pseudo-random generator *)

Definition tape := list nat.

(** [random._randbelow(n)]; an exhausted tape keeps answering 0. *)
Definition randbelow (n : nat) : M tape nat :=
  fun t =>
    match t with
    | [] => (Ok 0, [])
    | x :: t' => (Ok (x mod n), t')
    end.

(** [random.choice(seq)] is [seq[randbelow(len(seq))]]. *)
Definition random_choice {A} (seq : list A) : M tape A :=
  i <~ randbelow (length seq) ;;
  match seq !! i with
  | Some a => ret a
  | None => raise IndexError
  end.

(** [x[i], x[j] = x[j], x[i]] *)
Definition swap {A} (x : list A) (i j : nat) : list A :=
  match x !! i, x !! j with
  | Some a, Some b => <[i:=b]> (<[j:=a]> x)
  | _, _ => x
  end.

(** [random.shuffle(x)]: [for i in reversed(range(1, len(x)))] draw
    [j = randbelow(i + 1)] and swap positions [i] and [j]. *)
Fixpoint shuffle_from {A} (i : nat) (x : list A) : M tape (list A) :=
  match i with
  | O => ret x
  | S i' => j <~ randbelow (S i) ;; shuffle_from i' (swap x i j)
  end.

Definition shuffle {A} (x : list A) : M tape (list A) :=
  shuffle_from (length x - 1) x.

(** ** Populations *)

Record SimulationGroup := mkGroup {
  current_generation : list string;
  gene_structure : list Gene;
  gene_length : nat;
  experiment_mode : string;
  breed_history : list (nat * nat)   (* parent_count, child_count *)
}.

(** [SimulationGroup.__init__] *)
Definition SimulationGroup_init : SimulationGroup :=
  mkGroup [] [] 0 "random" [].

Definition set_current_generation (l : list string) (self : SimulationGroup) :=
  mkGroup l (gene_structure self) (gene_length self)
          (experiment_mode self) (breed_history self).

Definition set_gene_structure (l : list Gene) (self : SimulationGroup) :=
  mkGroup (current_generation self) l (gene_length self)
          (experiment_mode self) (breed_history self).

Definition set_gene_length (n : nat) (self : SimulationGroup) :=
  mkGroup (current_generation self) (gene_structure self) n
          (experiment_mode self) (breed_history self).

Definition set_mode (m : string) (self : SimulationGroup) :=
  mkGroup (current_generation self) (gene_structure self) (gene_length self)
          m (breed_history self).

Definition set_breed_history (h : list (nat * nat)) (self : SimulationGroup) :=
  mkGroup (current_generation self) (gene_structure self) (gene_length self)
          (experiment_mode self) h.

(** The loop of [initialize_structure]: [for i in range(0, len(genes_str), 2)]
    reads only [genes_str[i]], so a last unpaired character is a locus too. *)
Fixpoint initialize_loop (cs : list ascii) (genes_dict : gmap string Gene)
    (seen_genes : gset string) : M SimulationGroup unit :=
  match cs with
  | [] => ret tt
  | c :: rest =>
      let gene_symbol := symbol_of c in
      if decide (gene_symbol ∈ seen_genes)
      then raise (ValueError (DuplicateLocus gene_symbol))
      else
        match genes_dict !! gene_symbol with
        | None => raise (ValueError (UnknownGene gene_symbol))
        | Some gene =>
            modify (fun self =>
                      set_gene_structure (gene_structure self ++ [gene]) self) ;;;
            match rest with
            | [] => ret tt
            | _ :: rest' =>
                initialize_loop rest' genes_dict ({[gene_symbol]} ∪ seen_genes)
            end
        end
  end.

(** [SimulationGroup.initialize_structure] *)
Definition initialize_structure (genes_str : string)
    (genes_dict : gmap string Gene) : M SimulationGroup unit :=
  modify (set_gene_structure []) ;;;
  initialize_loop (chars genes_str) genes_dict ∅ ;;;
  modify (set_gene_length (String.length genes_str)).

Definition lift_result {S A} (r : result A) : M S A := fun s => (r, s).

(** [SimulationGroup.add_organism] *)
Definition add_organism (genes_str : string) (genes_dict : gmap string Gene)
    : M SimulationGroup unit :=
  self <~ get ;;
  match current_generation self with
  | [] => initialize_structure genes_str genes_dict
  | _ :: _ => ret tt
  end ;;;
  lift_result (validate genes_str genes_dict) ;;;
  self <~ get ;;
  if decide (String.length genes_str ≠ gene_length self)
  then raise (ValueError (LengthMismatch (gene_length self)))
  else modify (fun self =>
                 set_current_generation (current_generation self ++ [genes_str]) self).

(** [SimulationGroup.set_experiment_mode] *)
Definition set_experiment_mode (mode : string) : M SimulationGroup unit :=
  if bool_decide (mode ∈ ["random"; "cross"])
  then modify (set_mode mode)
  else raise (ValueError InvalidMode).

(** [sorted(l, key)] for a boolean key: the sort is stable and
    [False < True], so the elements with key [False] come first, each part
    in its original order. *)
Definition sorted_by_flag {A} (key : A -> bool) (l : list A) : list A :=
  List.filter (fun x => negb (key x)) l ++ List.filter key l.

(** First loop of [_create_child]: one gamete of each parent per locus. *)
Fixpoint draw_gametes (p1 p2 : list ascii) (genes_dict : gmap string Gene)
    : M tape (list ascii) :=
  match p1 with
  | [] => ret []
  | a1 :: p1' =>
      match genes_dict !! symbol_of a1 with
      | None => raise (KeyError (symbol_of a1))
      | Some gene =>
          match p1' with
          | [] => raise IndexError
          | a2 :: p1'' =>
              match p2 with
              | b1 :: b2 :: p2'' =>
                  gamete1 <~ random_choice [a1; a2] ;;
                  gamete2 <~ random_choice [b1; b2] ;;
                  child_genes <~ draw_gametes p1'' p2'' genes_dict ;;
                  ret (gamete1 :: gamete2 :: child_genes)
              | _ => raise IndexError
              end
          end
      end
  end.

(** Second loop of [_create_child]: each locus is sorted with the key
    [x == gene.recessive], where [gene] is looked up from the first gamete. *)
Fixpoint sort_loci (child_genes : list ascii) (genes_dict : gmap string Gene)
    : result (list ascii) :=
  match child_genes with
  | [] => Ok []
  | c1 :: rest =>
      match genes_dict !! symbol_of c1 with
      | None => Raise (KeyError (symbol_of c1))
      | Some gene =>
          match rest with
          | [] => Raise IndexError
          | c2 :: rest' =>
              let alleles :=
                sorted_by_flag (fun x => bool_decide (x = recessive gene)) [c1; c2] in
              match sort_loci rest' genes_dict with
              | Ok sorted_genes => Ok (alleles ++ sorted_genes)
              | Raise x => Raise x
              end
          end
      end
  end.

(** [SimulationGroup._create_child] *)
Definition _create_child (p1 p2 : string) (genes_dict : gmap string Gene)
    : M tape string :=
  child_genes <~ draw_gametes (chars p1) (chars p2) genes_dict ;;
  sorted_genes <~ lift_result (sort_loci child_genes genes_dict) ;;
  ret (join sorted_genes).

(** [parent_groups[p].append(p)] on a dictionary that keeps insertion order. *)
Fixpoint group_append (p : string) (parent_groups : list (string * list string))
    : list (string * list string) :=
  match parent_groups with
  | [] => [(p, [p])]
  | (k, members) :: rest =>
      if decide (k = p) then (k, members ++ [p]) :: rest
      else (k, members) :: group_append p rest
  end.

Definition group_parents (parents : list string) : list (string * list string) :=
  foldl (fun acc p => group_append p acc) [] parents.

(** [while len(same_type) >= 2: pairs.append((same_type.pop(), same_type.pop()))],
    on the reversed list: [pop] takes the last element. *)
Fixpoint pop_pairs {A} (reversed : list A) : list (A * A) :=
  match reversed with
  | a :: b :: rest => (a, b) :: pop_pairs rest
  | _ => []
  end.

(** The pair list of cross mode: for each key [i], the position-wise zip
    with every later group, then the pairs inside group [i].  A group is
    only emptied after its own zips, and later groups are still whole. *)
Fixpoint cross_pairs (parent_groups : list (string * list string))
    : list (string * string) :=
  match parent_groups with
  | [] => []
  | (_, members) :: rest =>
      flat_map (fun kj => zip members (snd kj)) rest
        ++ pop_pairs (rev members)
        ++ cross_pairs rest
  end.

(** [(parents[0], parents[1]), (parents[2], parents[3]), ...]; the loop
    [range(0, len(parents)//2*2, 2)] never reaches an unpaired last element. *)
Fixpoint consecutive_pairs {A} (parents : list A) : list (A * A) :=
  match parents with
  | p1 :: p2 :: rest => (p1, p2) :: consecutive_pairs rest
  | _ => []
  end.

(** [for p1, p2 in pairs: next_gen.append(self._create_child(p1, p2, genes_dict))] *)
Fixpoint create_children (pairs : list (string * string))
    (genes_dict : gmap string Gene) : M tape (list string) :=
  match pairs with
  | [] => ret []
  | (p1, p2) :: rest =>
      child <~ _create_child p1 p2 genes_dict ;;
      next_gen <~ create_children rest genes_dict ;;
      ret (child :: next_gen)
  end.

Definition lift_fst {S T A} (m : M S A) : M (S * T) A :=
  fun st => let '(r, s') := m (fst st) in (r, (s', snd st)).

Definition lift_snd {S T A} (m : M T A) : M (S * T) A :=
  fun st => let '(r, t') := m (snd st) in (r, (fst st, t')).

(** [SimulationGroup.breed]; the state is the group and the generator. *)
Definition breed (genes_dict : gmap string Gene)
    : M (SimulationGroup * tape) unit :=
  self <~ lift_fst get ;;
  if (length (current_generation self) <? 2)%nat
  then raise (ValueError InsufficientPopulation)
  else
    let parents := current_generation self in
    next_gen <~ lift_snd
      (if decide (experiment_mode self = "cross")
       then
         pairs <~ shuffle (cross_pairs (group_parents parents)) ;;
         create_children (take (length parents / 2) pairs) genes_dict
       else
         parents <~ shuffle parents ;;
         create_children (consecutive_pairs parents) genes_dict) ;;
    lift_fst
      (modify (fun self =>
         set_current_generation next_gen
           (set_breed_history
              (breed_history self ++ [(length parents, length next_gen)]) self))).

(** ** Statistics

    [get_statistics] as it is called by [run_simulation] ([details=False]).
    The counts are kept; the ratios [count / total] are floating-point
    values that only feed the printed report and are left out. *)

Record statistics := mkStats {
  total : nat;
  genotypes : list (string * nat);
  phenotypes : list (list string * (nat * gset string))
}.

(** [stats['genotypes'][geno] += 1] on a [defaultdict(int)] *)
Fixpoint count_genotype (geno : string) (tally : list (string * nat))
    : list (string * nat) :=
  match tally with
  | [] => [(geno, 1)]
  | (k, n) :: rest =>
      if decide (k = geno) then (k, S n) :: rest
      else (k, n) :: count_genotype geno rest
  end.

(** [stats['phenotypes'][pheno_key]['count'] += 1] and
    [...['genotypes'].add(geno)] *)
Fixpoint count_phenotype (pheno_key : list string) (geno : string)
    (tally : list (list string * (nat * gset string)))
    : list (list string * (nat * gset string)) :=
  match tally with
  | [] => [(pheno_key, (1, {[geno]}))]
  | (k, (n, gs)) :: rest =>
      if decide (k = pheno_key) then (k, (S n, {[geno]} ∪ gs)) :: rest
      else (k, (n, gs)) :: count_phenotype pheno_key geno rest
  end.

(** The inner loop: [gene.get_phenotype(geno[i:i+2])] for each locus. *)
Fixpoint phenotype_of (geno : list ascii) (genes_dict : gmap string Gene)
    : result (list string) :=
  match geno with
  | [] => Ok []
  | c :: rest =>
      match genes_dict !! symbol_of c with
      | None => Raise (KeyError (symbol_of c))
      | Some gene =>
          let trait := get_phenotype gene (take 2 geno) in
          match rest with
          | [] => Ok [trait]
          | _ :: rest' =>
              match phenotype_of rest' genes_dict with
              | Ok phenotype => Ok (trait :: phenotype)
              | Raise x => Raise x
              end
          end
      end
  end.

Fixpoint tally_generation (generation : list string)
    (genes_dict : gmap string Gene) (stats : statistics) : result statistics :=
  match generation with
  | [] => Ok stats
  | geno :: rest =>
      match phenotype_of (chars geno) genes_dict with
      | Raise x => Raise x
      | Ok pheno_key =>
          tally_generation rest genes_dict
            (mkStats (total stats)
                     (count_genotype geno (genotypes stats))
                     (count_phenotype pheno_key geno (phenotypes stats)))
      end
  end.

(** [SimulationGroup.get_statistics] *)
Definition get_statistics (self : SimulationGroup)
    (genes_dict : gmap string Gene) : result statistics :=
  tally_generation (current_generation self) genes_dict
    (mkStats (length (current_generation self)) [] []).

(** ** The command layer *)

Record GeneticSimulationSystem := mkSystem {
  genes : gmap string Gene;
  groups : gmap string SimulationGroup;
  current_group : option string
}.

(** What the handlers print. *)
Inductive event :=
  | GeneAdded (gene_symbol : string)
  | GroupCreated (group_name : string)
  | GroupSwitched (group_name : string)
  | ModeSet (group_name mode : string)
  | BreedResult (group_name : string) (original new_count : nat)
  | StatsShown (stats : statistics)
  | BreedFailed (x : exn)
  | StateUpdated
  | OrganismsAdded (amount : Z)
  | OrganismsDeleted (amount : Z)
  | BadCount
  | ErrorReported (x : exn).

(** The interpreter [system], the shared generator and the console. *)
Record World := mkWorld {
  system : GeneticSimulationSystem;
  rng : tape;
  out : list event
}.

(** [GeneticSimulationSystem.__init__], with the generator in some state. *)
Definition World_init (t : tape) : World :=
  mkWorld (mkSystem ∅ ∅ None) t [].

Definition print (ev : event) : M World unit :=
  modify (fun w => mkWorld (system w) (rng w) (out w ++ [ev])).

Definition set_genes (gs : gmap string Gene) (w : World) : World :=
  mkWorld (mkSystem gs (groups (system w)) (current_group (system w)))
          (rng w) (out w).

Definition set_group (group_name : string) (g : SimulationGroup) (w : World)
    : World :=
  mkWorld (mkSystem (genes (system w)) (<[group_name := g]> (groups (system w)))
                    (current_group (system w)))
          (rng w) (out w).

Definition set_current_group (group_name : string) (w : World) : World :=
  mkWorld (mkSystem (genes (system w)) (groups (system w)) (Some group_name))
          (rng w) (out w).

Definition set_rng (t : tape) (w : World) : World :=
  mkWorld (system w) t (out w).

(** A method call on the group object stored under [group_name]: the
    object is mutated in place, so the entry of [groups] changes with it. *)
Definition on_group {A} (group_name : string) (m : M SimulationGroup A)
    : M World A :=
  fun w =>
    match groups (system w) !! group_name with
    | None => (Raise (KeyError group_name), w)
    | Some group =>
        let '(r, group') := m group in (r, set_group group_name group' w)
    end.

(** The same for a method that also draws random numbers. *)
Definition on_group_rng {A} (group_name : string)
    (m : M (SimulationGroup * tape) A) : M World A :=
  fun w =>
    match groups (system w) !! group_name with
    | None => (Raise (KeyError group_name), w)
    | Some group =>
        let '(r, (group', t')) := m (group, rng w) in
        (r, set_rng t' (set_group group_name group' w))
    end.

(** [GeneticSimulationSystem.add_gene] *)
Definition add_gene (args : list string) : M World unit :=
  match args with
  | [dom; rec; dom_t; rec_t] =>
      let gene_symbol := upper dom in
      w <~ get ;;
      if decide (is_Some (genes (system w) !! gene_symbol))
      then raise (ValueError DuplicateGene)
      else
        new_gene <~ lift_result (Gene_init dom rec dom_t rec_t) ;;
        modify (set_genes (<[gene_symbol := new_gene]> (genes (system w)))) ;;;
        print (GeneAdded gene_symbol)
  | _ => raise (ValueError BadArgumentCount)
  end.

(** [GeneticSimulationSystem.create_group] *)
Definition create_group (args : list string) : M World unit :=
  match args with
  | [] => raise (ValueError BadArgumentCount)
  | group_name :: _ =>
      w <~ get ;;
      if decide (is_Some (groups (system w) !! group_name))
      then raise (ValueError DuplicateGroup)
      else
        modify (set_group group_name SimulationGroup_init) ;;;
        modify (set_current_group group_name) ;;;
        print (GroupCreated group_name)
  end.

(** [GeneticSimulationSystem.read_group] *)
Definition read_group (args : list string) : M World unit :=
  match args with
  | [] => raise (ValueError BadArgumentCount)
  | group_name :: _ =>
      w <~ get ;;
      if decide (is_Some (groups (system w) !! group_name))
      then modify (set_current_group group_name) ;;;
           print (GroupSwitched group_name)
      else raise (ValueError UnknownGroup)
  end.

(** [GeneticSimulationSystem.set_experiment_mode] *)
Definition system_set_experiment_mode (args : list string) : M World unit :=
  match args with
  | group_name :: mode :: _ =>
      w <~ get ;;
      if decide (is_Some (groups (system w) !! group_name))
      then
        if bool_decide (mode ∈ ["cross"; "random"])
        then on_group group_name (set_experiment_mode mode) ;;;
             print (ModeSet group_name mode)
        else raise (ValueError InvalidMode)
      else raise (ValueError UnknownGroup)
  | _ => raise (ValueError BadArgumentCount)
  end.

(** [GeneticSimulationSystem.run_simulation] *)
Definition run_simulation (args : list string) : M World unit :=
  w <~ get ;;
  group_name <~
    match args with
    | [] =>
        match current_group (system w) with
        | None => raise (ValueError NoGroupSelected)
        | Some name =>
            if decide (name = "") then raise (ValueError NoGroupSelected)
            else ret name
        end
    | name :: _ => ret name
    end ;;
  match groups (system w) !! group_name with
  | None => raise (ValueError UnknownGroup)
  | Some group =>
      try_except
        (let original := length (current_generation group) in
         on_group_rng group_name (breed (genes (system w))) ;;;
         bred <~ on_group group_name get ;;
         print (BreedResult group_name original
                            (length (current_generation bred))) ;;;
         stats <~ lift_result (get_statistics bred (genes (system w))) ;;
         print (StatsShown stats))
        is_ValueError
        (fun x => print (BreedFailed x))
  end.

(** [GeneticSimulationSystem.write_simulation] *)
Definition write_simulation (args : list string) : M World unit :=
  run_simulation args ;;;
  print StateUpdated.

(** [l[:k]] *)
Definition slice_to {A} (k : Z) (l : list A) : list A :=
  if (k <? 0)%Z then take (length l - Z.to_nat (- k)) l
  else take (Z.to_nat k) l.

(** [GeneticSimulationSystem.change_composition], from
    [group_name, genotype, operation = args[0], args[1], args[2]] and
    [amount = int(args[3])] on. *)
Definition change_composition (group_name genotype operation : string)
    (amount : Z) : M World unit :=
  w <~ get ;;
  match groups (system w) !! group_name with
  | None => raise (ValueError UnknownGroup)
  | Some group =>
      match validate genotype (genes (system w)) with
      | Raise (ValueError e) => raise (ValueError (InvalidGenotype e))
      | Raise x => raise x
      | Ok _ =>
          if (0 <? gene_length group)%nat
             && negb (String.length genotype =? gene_length group)%nat
          then raise (ValueError (LengthMismatch (gene_length group)))
          else if decide (operation = "add") then
            for_range (Z.to_nat amount)
              (on_group group_name (add_organism genotype (genes (system w)))) ;;;
            print (OrganismsAdded amount)
          else if decide (operation = "del") then
            let generation := current_generation group in
            let current_count :=
              length (List.filter (fun g => bool_decide (g = genotype)) generation) in
            if (Z.of_nat current_count <? amount)%Z
            then raise (ValueError (InsufficientQuantity current_count))
            else
              on_group group_name
                (modify (set_current_generation
                   (slice_to (Z.of_nat (length generation) - amount)
                      (List.filter (fun g => negb (bool_decide (g = genotype)))
                                   generation)))) ;;;
              print (OrganismsDeleted amount)
          else raise (ValueError BadOperation)
      end
  end.

(** [system.process_command("/run")], the call made by [run_for_times]:
    the line splits into the single token [/run], which selects
    [self.run_simulation([])] inside the handler-wide
    [try ... except Exception as e: print(...)]. *)
Definition process_run : M World unit :=
  try_except (run_simulation []) (fun _ => true)
             (fun x => print (ErrorReported x)).

(** How [main.py] was loaded.  Its last block,
    [if __name__ == "__main__": system = GeneticSimulationSystem() ...],
    is the only binding of the module-level name [system]: run as a script
    the name denotes the one interpreter object; imported (as the GUI
    module does) the name is unbound. *)
Inductive loading := Script | Imported.

(** [GeneticSimulationSystem.run_for_times]; [count] is [int(args[0])], or
    [None] when that raises.  The loop body is
    [system.process_command("/run")] on the module-level [system], not on
    [self]: evaluating the name raises [NameError] when it is unbound. *)
Definition run_for_times (how : loading) (count : option Z) : M World unit :=
  match count with
  | None => print BadCount
  | Some count =>
      for_range (Z.to_nat count)
        (match how with
         | Script => process_run
         | Imported => raise (NameError "system")
         end)
  end.

(** The command lines whose handlers are embedded, after tokenizing. *)
Inductive command :=
  | CmdAdd (args : list string)
  | CmdCreate (args : list string)
  | CmdRead (args : list string)
  | CmdRun (args : list string)
  | CmdWrite (args : list string)
  | CmdChange (group_name genotype operation : string) (amount : Z)
  | CmdMode (args : list string)
  | CmdRuns (count : option Z).

Definition dispatch (how : loading) (cmd : command) : M World unit :=
  match cmd with
  | CmdAdd args => add_gene args
  | CmdCreate args => create_group args
  | CmdRead args => read_group args
  | CmdRun args => run_simulation args
  | CmdWrite args => write_simulation args
  | CmdChange group_name genotype operation amount =>
      change_composition group_name genotype operation amount
  | CmdMode args => system_set_experiment_mode args
  | CmdRuns count => run_for_times how count
  end.

(** [GeneticSimulationSystem.process_command]: every exception of a handler
    is caught and reported. *)
Definition process_command (how : loading) (cmd : command) : M World unit :=
  try_except (dispatch how cmd) (fun _ => true)
             (fun x => print (ErrorReported x)).

(** An interactive session of the script: the entry point feeds each line
    to [system.process_command], which never lets an exception escape. *)
Definition exec (cmd : command) (w : World) : World :=
  snd (process_command Script cmd w).

Definition session (cmds : list command) (w : World) : World :=
  foldl (fun w cmd => exec cmd w) w cmds.

(** One [/run] line as a world transformer. *)
Definition exec_run (w : World) : World := snd (process_run w).

(** ** Specification-side notions *)

(** The verdict of the validator on one locus, in the words of the
    specification: the gene named by the first character must be
    registered; both characters must be alleles of that gene; the locus
    must not be written recessive-then-dominant. *)
Definition locus_verdict (genes_dict : gmap string Gene) (a1 a2 : ascii)
    : option error :=
  match genes_dict !! symbol_of a1 with
  | None => Some (UnknownGene (symbol_of a1))
  | Some gene =>
      if decide (a1 ∈ [dominant gene; recessive gene]
                 ∧ a2 ∈ [dominant gene; recessive gene])
      then
        if decide (a1 = recessive gene ∧ a2 = dominant gene)
        then Some (BadAlleleOrder (dominant gene) (recessive gene))
        else None
      else Some (InvalidAllele a1 a2)
  end.

(** The locus number [k] of a genotype: characters [2k] and [2k+1]. *)
Definition locus (cs : list ascii) (k : nat) : option (ascii * ascii) :=
  match cs !! (2 * k), cs !! (2 * k + 1) with
  | Some a1, Some a2 => Some (a1, a2)
  | _, _ => None
  end.

(** The data model of a gene: the recessive allele is the lower-case form
    of the symbol, so both alleles name the same dictionary key. *)
Definition case_consistent (genes_dict : gmap string Gene) : Prop :=
  map_Forall (fun _ gene => upper_char (recessive gene) = dominant gene) genes_dict.

(** [child] can be bred from the pair [pr]. *)
Definition child_of (genes_dict : gmap string Gene) (child : string)
    (pr : string * string) : Prop :=
  exists t1 t2, _create_child (fst pr) (snd pr) genes_dict t1 = (Ok child, t2).

(** Every genotype of the population has the locked length, and it is even. *)
Definition uniform (self : SimulationGroup) : Prop :=
  Forall (fun geno => String.length geno = gene_length self
                      ∧ Nat.Even (String.length geno))
         (current_generation self).

Definition all_uniform (w : World) : Prop :=
  map_Forall (fun _ group => uniform group) (groups (system w)).

(** The states a session of the script can reach.  [/random] inserts its genotypes by
    calling [add_organism] directly, once per organism; the second step
    covers each such call, whatever genotype was drawn. *)
Inductive reachable : World -> Prop :=
  | reach_init t : reachable (World_init t)
  | reach_command cmd w : reachable w -> reachable (exec cmd w)
  | reach_add_organism group_name genes_str w :
      reachable w ->
      reachable (snd (on_group group_name
                        (add_organism genes_str (genes (system w))) w)).

(** The group stored under a name (a fresh group if there is none). *)
Definition group_of (group_name : string) (w : World) : SimulationGroup :=
  default SimulationGroup_init (groups (system w) !! group_name).

(** ** Scenarios *)

(** Two pea genes and an empty group [G]. *)
Definition pea_commands : list command :=
  [CmdAdd ["A"; "a"; "tall"; "short"];
   CmdAdd ["B"; "b"; "round"; "wrinkled"];
   CmdCreate ["G"]].

Definition pea_world : World := session pea_commands (World_init []).

(** [G] holds three copies of [AA]. *)
Definition three_AA : World :=
  exec (CmdChange "G" "AA" "add" 3) pea_world.

(** [G] holds a single organism, too few to breed. *)
Definition lonely : World :=
  exec (CmdChange "G" "Aa" "add" 1) pea_world.

(** [G] received [AA] and lost it again. *)
Definition emptied : World :=
  session [CmdChange "G" "AA" "add" 1; CmdChange "G" "AA" "del" 1] pea_world.

(** [G] was locked by [AABB]. *)
Definition two_loci : World :=
  exec (CmdChange "G" "AABB" "add" 1) pea_world.

(** [G] holds [Aa] and [aa], ten of each. *)
Definition ten_and_ten (t : tape) : World :=
  session (pea_commands ++ [CmdChange "G" "Aa" "add" 10;
                            CmdChange "G" "aa" "add" 10])
          (World_init t).

(** ** Basic facts *)

Lemma length_chars (s : string) : length (chars s) = String.length s.
Proof. induction s as [|c s IH]; simpl; [reflexivity | now rewrite IH]. Qed.

Lemma chars_join (l : list ascii) : chars (join l) = l.
Proof. apply list_ascii_of_string_of_list_ascii. Qed.

Lemma length_join (l : list ascii) : String.length (join l) = length l.
Proof. now rewrite <- length_chars, chars_join. Qed.

Lemma upper_char_idemp (c : ascii) : upper_char (upper_char c) = upper_char c.
Proof. destruct c as [[] [] [] [] [] [] [] []]; reflexivity. Qed.

(** Induction two characters at a time. *)
Lemma pair_ind {A} (P : list A -> Prop) :
  P [] -> (forall a, P [a]) -> (forall a b l, P l -> P (a :: b :: l)) ->
  forall l, P l.
Proof.
  intros H0 H1 H2.
  fix IH 1. intros [|a [|b l]]; [exact H0 | apply H1 | apply H2, IH].
Qed.

(** ** The validator *)

Lemma validate_allele_spec gene a :
  validate_allele gene a = true <-> a ∈ [dominant gene; recessive gene].
Proof.
  unfold validate_allele.
  rewrite orb_true_iff, !bool_decide_eq_true, !elem_of_cons, elem_of_nil.
  tauto.
Qed.

Lemma validate_loci_step genes_dict a1 a2 rest :
  validate_loci (a1 :: a2 :: rest) genes_dict =
  match locus_verdict genes_dict a1 a2 with
  | Some e => Raise (ValueError e)
  | None => validate_loci rest genes_dict
  end.
Proof.
  cbn [validate_loci]. unfold locus_verdict.
  destruct (genes_dict !! symbol_of a1) as [gene|]; [|reflexivity].
  destruct (decide (_ ∧ _)) as [[H1 H2]|Hn].
  - apply validate_allele_spec in H1, H2. rewrite H1, H2. cbn.
    destruct (decide (a1 = recessive gene ∧ a2 = dominant gene)) as [[-> ->]|Hn].
    + now rewrite !bool_decide_eq_true_2.
    + destruct (bool_decide_reflect (a2 = dominant gene)),
               (bool_decide_reflect (a1 = recessive gene)); cbn; tauto.
  - destruct (validate_allele gene a1) eqn:E1, (validate_allele gene a2) eqn:E2;
      cbn; try reflexivity.
    exfalso. apply Hn. now rewrite <- !validate_allele_spec.
Qed.

Lemma locus_0 a1 a2 rest : locus (a1 :: a2 :: rest) 0 = Some (a1, a2).
Proof. reflexivity. Qed.

Lemma locus_S a1 a2 rest k : locus (a1 :: a2 :: rest) (S k) = locus rest k.
Proof.
  unfold locus. replace (2 * S k) with (S (S (2 * k))) by lia.
  reflexivity.
Qed.

Lemma locus_nil k : locus [] k = None.
Proof. reflexivity. Qed.

Lemma locus_single a k : locus [a] k = None.
Proof.
  unfold locus. destruct k as [|k]; [reflexivity|].
  replace (2 * S k) with (S (S (2 * k))) by lia. reflexivity.
Qed.

Lemma locus_verdict_not_malformed genes_dict a1 a2 :
  locus_verdict genes_dict a1 a2 <> Some MalformedGenotype.
Proof.
  unfold locus_verdict.
  destruct (genes_dict !! symbol_of a1); [|discriminate].
  repeat case_decide; discriminate.
Qed.

(** The scan accepts exactly when every locus is in order. *)
Lemma validate_loci_ok genes_dict cs :
  validate_loci cs genes_dict = Ok tt <->
  forall k a1 a2, locus cs k = Some (a1, a2) ->
                  locus_verdict genes_dict a1 a2 = None.
Proof.
  induction cs as [|a|a1 a2 rest IH] using pair_ind.
  - split; [intros _ k ? ?; now rewrite locus_nil | reflexivity].
  - split; [intros _ k ? ?; now rewrite locus_single | reflexivity].
  - rewrite validate_loci_step. split.
    + intros H [|k] b1 b2.
      * rewrite locus_0. intros [= <- <-].
        destruct (locus_verdict genes_dict a1 a2); [discriminate | reflexivity].
      * rewrite locus_S.
        destruct (locus_verdict genes_dict a1 a2); [discriminate|].
        now apply IH.
    + intros H. rewrite (H 0 a1 a2 (locus_0 _ _ _)). apply IH.
      intros k b1 b2 Hk. apply (H (S k)). now rewrite locus_S.
Qed.

(** The scan reports the verdict of the first locus that is out of order. *)
Lemma validate_loci_raise genes_dict cs x :
  validate_loci cs genes_dict = Raise x <->
  exists e k a1 a2,
    x = ValueError e /\ locus cs k = Some (a1, a2)
    /\ locus_verdict genes_dict a1 a2 = Some e
    /\ forall j b1 b2, j < k -> locus cs j = Some (b1, b2) ->
                       locus_verdict genes_dict b1 b2 = None.
Proof.
  induction cs as [|a|a1 a2 rest IH] using pair_ind.
  - split; [discriminate|]. intros (e & k & b1 & b2 & _ & H & _).
    now rewrite locus_nil in H.
  - split; [discriminate|]. intros (e & k & b1 & b2 & _ & H & _).
    now rewrite locus_single in H.
  - rewrite validate_loci_step. split.
    + destruct (locus_verdict genes_dict a1 a2) as [e|] eqn:V.
      * intros [= <-]. exists e, 0, a1, a2. repeat split; try done. lia.
      * intros (e & k & b1 & b2 & -> & Hk & Hv & Hlt)%IH.
        exists e, (S k), b1, b2. rewrite locus_S. repeat split; try done.
        intros [|j] c1 c2 Hj.
        -- rewrite locus_0. now intros [= <- <-].
        -- rewrite locus_S. apply Hlt. lia.
    + intros (e & [|k] & b1 & b2 & -> & Hk & Hv & Hlt).
      * rewrite locus_0 in Hk. injection Hk as <- <-. now rewrite Hv.
      * rewrite (Hlt 0 a1 a2 ltac:(lia) (locus_0 _ _ _)).
        apply IH. exists e, k, b1, b2. rewrite locus_S in Hk.
        repeat split; try done.
        intros j c1 c2 Hj Hc. apply (Hlt (S j)); [lia|]. now rewrite locus_S.
Qed.

(** C6. The validator fails with [MalformedGenotype] exactly when the
    length is odd.  On an even length it scans the loci two characters at
    a time and fails with the verdict of the first locus that is out of
    order: [UnknownGene] when the upper-cased first character names no
    registered gene, [InvalidAllele] when a character of the locus is not
    an allele of that gene, [BadAlleleOrder] when the locus is written
    recessive-then-dominant.  It accepts exactly when the length is even
    and no locus has a verdict, and it raises nothing but these errors.
    The validator is a function of the string and the registry only; it
    returns no registry, so it cannot change one. *)
Theorem validate_characterised (genes_str : string)
    (genes_dict : gmap string Gene) :
  (validate genes_str genes_dict = Raise (ValueError MalformedGenotype)
     <-> Nat.Odd (String.length genes_str))
  /\ (forall e, e <> MalformedGenotype ->
        (validate genes_str genes_dict = Raise (ValueError e) <->
         Nat.Even (String.length genes_str)
         /\ exists k a1 a2,
              locus (chars genes_str) k = Some (a1, a2)
              /\ locus_verdict genes_dict a1 a2 = Some e
              /\ forall j b1 b2, j < k ->
                   locus (chars genes_str) j = Some (b1, b2) ->
                   locus_verdict genes_dict b1 b2 = None))
  /\ (validate genes_str genes_dict = Ok tt <->
        Nat.Even (String.length genes_str)
        /\ forall k a1 a2, locus (chars genes_str) k = Some (a1, a2) ->
                           locus_verdict genes_dict a1 a2 = None)
  /\ (forall x, validate genes_str genes_dict = Raise x ->
                exists e, x = ValueError e).
Proof.
  unfold validate.
  destruct (Nat.odd (String.length genes_str)) eqn:Hodd.
  - assert (Ho : Nat.Odd (String.length genes_str)) by now apply Nat.odd_spec.
    assert (Hne : ~ Nat.Even (String.length genes_str)).
    { intros He. apply (Nat.Even_Odd_False _ He Ho). }
    split; [|split; [|split]].
    + tauto.
    + intros e Hm. split; [intros [= <-]; congruence | tauto].
    + split; [discriminate | tauto].
    + intros x [= <-]. eauto.
  - assert (He : Nat.Even (String.length genes_str)).
    { apply Nat.even_spec. now rewrite <- Nat.negb_odd, Hodd. }
    assert (Hno : ~ Nat.Odd (String.length genes_str)).
    { intros Ho. apply (Nat.Even_Odd_False _ He Ho). }
    split; [|split; [|split]].
    + split; [|tauto].
      intros (e & k & a1 & a2 & [= <-] & _ & Hv & _)%validate_loci_raise.
      now apply locus_verdict_not_malformed in Hv.
    + intros e _. rewrite validate_loci_raise. split.
      * intros (e' & k & a1 & a2 & [= <-] & H). split; [done|]. eauto.
      * intros (_ & k & a1 & a2 & H). exists e, k, a1, a2. tauto.
    + rewrite validate_loci_ok. tauto.
    + intros x (e & _ & _ & _ & -> & _)%validate_loci_raise. eauto.
Qed.

(** ** Unfolding the monad *)

Ltac munfold :=
  unfold print, on_group, on_group_rng in *;
  unfold bind, ret, raise, get, modify, try_except, lift_result,
         lift_fst, lift_snd in *.

(** ** Breeding needs two parents *)

(** C7. With fewer than two organisms [breed] raises
    [InsufficientPopulation]; the group (organisms, locked structure,
    length, mode and history) and the generator are left as they were. *)
Theorem breed_insufficient (genes_dict : gmap string Gene)
    (self : SimulationGroup) (t : tape) :
  length (current_generation self) < 2 ->
  breed genes_dict (self, t)
  = (Raise (ValueError InsufficientPopulation), (self, t)).
Proof.
  intros Hlt. unfold breed. munfold. cbn [fst snd].
  apply Nat.ltb_lt in Hlt. now rewrite Hlt.
Qed.

Lemma breed_insufficient_witness :
  breed ∅ (SimulationGroup_init, [3; 1])
  = (Raise (ValueError InsufficientPopulation), (SimulationGroup_init, [3; 1])).
Proof. apply (breed_insufficient ∅ SimulationGroup_init [3; 1]). cbn. lia. Defined.

(** ** Defining genes *)

Lemma length_1_chars (s : string) :
  String.length s = 1 <-> exists c, chars s = [c].
Proof.
  destruct s as [|c [|c' s]]; cbn; split; try discriminate; eauto.
  - now intros [? ?].
  - now intros [? ?].
Qed.

Lemma chars_ch_upper s c : chars s = [c] -> upper s = ch (upper_char c).
Proof. destruct s as [|c0 [|c1 s]]; cbn; intros [= <-]; reflexivity. Qed.

Lemma chars_ch_lower s c : chars s = [c] -> lower s = ch (lower_char c).
Proof. destruct s as [|c0 [|c1 s]]; cbn; intros [= <-]; reflexivity. Qed.

(** C3, counterexample. Defining dominant [A] with recessive [a], whose
    case-insensitive identities are equal, does not fail: the gene is
    stored under [A]. *)
Lemma add_gene_A_a_accepted :
  exists w',
    add_gene ["A"; "a"; "tall"; "short"] (World_init []) = (Ok tt, w')
    /\ genes (system w') !! "A" = Some (mkGene "A" "a" "tall" "short").
Proof. eexists. split; vm_compute; reflexivity. Qed.

(** C3, as the code has it. [add_gene] first fails with [DuplicateGene]
    if [upper dom] is already registered.  Otherwise it fails with
    [InvalidGene] if one of the two allele arguments is not exactly one
    character, or if the two arguments are the same string (the comparison
    is exact, so [A] with [a] passes).  Otherwise it stores, under the
    symbol [upper dom], a gene whose dominant allele is [upper dom] and
    whose recessive allele is [lower rec]; nothing else changes.  A failed
    call changes nothing. *)
Theorem add_gene_characterised (dom rec dom_t rec_t : string) (w : World) :
  let r := add_gene [dom; rec; dom_t; rec_t] w in
  if decide (is_Some (genes (system w) !! upper dom))
  then r = (Raise (ValueError DuplicateGene), w)
  else if decide (String.length dom = 1 /\ String.length rec = 1)
  then
    if decide (dom = rec)
    then r = (Raise (ValueError (InvalidGene SameAllele)), w)
    else
      exists gene,
        r = (Ok tt,
             mkWorld (mkSystem (<[upper dom := gene]> (genes (system w)))
                               (groups (system w)) (current_group (system w)))
                     (rng w) (out w ++ [GeneAdded (upper dom)]))
        /\ ch (dominant gene) = upper dom
        /\ ch (recessive gene) = lower rec
        /\ dom_trait gene = dom_t /\ rec_trait gene = rec_t
  else r = (Raise (ValueError (InvalidGene NotSingleChar)), w).
Proof.
  cbv zeta. unfold add_gene. munfold.
  destruct (decide (is_Some (genes (system w) !! upper dom))) as [Hreg|Hreg];
    [reflexivity|].
  unfold Gene_init.
  destruct (decide (String.length dom = 1 /\ String.length rec = 1))
    as [[[d Hd]%length_1_chars [r Hr]%length_1_chars]|Hlen].
  - rewrite Hd, Hr.
    destruct (decide (dom = rec)) as [Heq|Hne]; [reflexivity|].
    eexists. split; [reflexivity|]. cbn.
    now rewrite (chars_ch_upper _ _ Hd), (chars_ch_lower _ _ Hr).
  - destruct (chars dom) as [|d [|d' ds]] eqn:Hd;
      destruct (chars rec) as [|r [|r' rs]] eqn:Hr; try reflexivity.
    exfalso. apply Hlen. rewrite !length_1_chars. eauto.
Qed.

(** Every gene that [Gene.__init__] builds has two different alleles. *)
Lemma Gene_init_distinct dom rec dom_t rec_t gene :
  Gene_init dom rec dom_t rec_t = Ok gene -> dominant gene <> recessive gene.
Proof.
  unfold Gene_init.
  destruct (chars dom) as [|d [|]] eqn:Hd; try discriminate.
  destruct (chars rec) as [|r [|]] eqn:Hr; try discriminate.
  destruct (decide (dom = rec)) as [|Hne]; [discriminate|].
  intros [= <-]. cbn. intros Heq. apply Hne.
  assert (d = r).
  { clear -Heq. revert Heq.
    destruct d as [[] [] [] [] [] [] [] []];
      destruct r as [[] [] [] [] [] [] [] []]; vm_compute; congruence. }
  subst r. clear -Hd Hr.
  destruct dom as [|? [|]], rec as [|? [|]]; cbn in *; congruence.
Qed.

(** ** Deleting organisms *)

(** When [del] succeeds the new population is the old one without any copy
    of the genotype: the slice that follows the filter is never shorter
    than the filtered list. *)
Lemma slice_after_filter (genotype : string) (generation : list string)
    (amount : Z) :
  (Z.of_nat (length (List.filter (fun g => bool_decide (g = genotype)) generation))
     <? amount)%Z = false ->
  slice_to (Z.of_nat (length generation) - amount)
    (List.filter (fun g => negb (bool_decide (g = genotype))) generation)
  = List.filter (fun g => negb (bool_decide (g = genotype))) generation.
Proof.
  intros Hge. apply Z.ltb_ge in Hge.
  pose proof (List.filter_length (fun g => bool_decide (g = genotype)) generation)
    as Hsum.
  cbv beta in Hsum. unfold slice_to.
  destruct (Z.ltb_spec (Z.of_nat (length generation) - amount) 0) as [Hneg|Hpos];
    [exfalso; lia|].
  apply firstn_all2. lia.
Qed.

(** C1, at the failing input. [G] holds three copies of [AA];
    [/change G AA del 1] succeeds and leaves [G] empty: all three copies are
    removed, where one was asked for. *)
Theorem del_one_removes_all_three :
  (current_generation <$> groups (system three_AA) !! "G"
   = Some ["AA"; "AA"; "AA"])
  /\ exists w',
       change_composition "G" "AA" "del" 1 three_AA = (Ok tt, w')
       /\ current_generation <$> groups (system w') !! "G" = Some []
       /\ out w' = out three_AA ++ [OrganismsDeleted 1].
Proof. split; [|eexists; split; [|split]]; vm_compute; reflexivity. Qed.

(** ** Repeated runs *)

Lemma for_range_total {S} (body : M S unit) :
  (forall s, fst (body s) = Ok tt) ->
  forall n s, for_range n body s = (Ok tt, Nat.iter n (fun s => snd (body s)) s).
Proof.
  intros Hbody n. induction n as [|n IH]; intros s; [reflexivity|].
  cbn [for_range]. unfold bind. specialize (Hbody s).
  destruct (body s) as [r s'] eqn:Hb. cbn in Hbody. subst r.
  rewrite IH, Nat.iter_succ_r, Hb. reflexivity.
Qed.

(** [breed] writes nothing to the console and [run_simulation] only appends
    to it; a normal return has printed something. *)
Lemma run_simulation_out args w r w' :
  run_simulation args w = (r, w') ->
  exists evs, out w' = out w ++ evs /\ (r = Ok tt -> evs <> []).
Proof.
  unfold run_simulation. munfold. intros H.
  repeat (case_match; simplify_eq/=);
    try (exists []; split; [now rewrite app_nil_r | discriminate]);
    try (eexists; split; [reflexivity | discriminate]);
    try (eexists; split; [now rewrite <- app_assoc | discriminate]).
Qed.

(** One [/run] line never raises, and it always prints. *)
Lemma process_run_total w :
  fst (process_run w) = Ok tt
  /\ exists evs, out (exec_run w) = out w ++ evs /\ evs <> [].
Proof.
  unfold exec_run, process_run, try_except.
  destruct (run_simulation [] w) as [[[]|x] w'] eqn:Hrun;
    apply run_simulation_out in Hrun as (evs & Hout & Hne); cbn.
  - split; [reflexivity|]. exists evs. auto.
  - split; [reflexivity|]. exists (evs ++ [ErrorReported x]).
    rewrite Hout, <- app_assoc. split; [reflexivity|].
    now destruct evs.
Qed.

(** C2, counterexample (the script). [G] holds one organism, so the run-one-generation
    operation raises [InsufficientPopulation] in the very first iteration.
    [run_for_times 3] nevertheless returns normally and the console shows
    three failure reports: the second and third repetitions were executed. *)
Lemma runs_continue_after_a_failure :
  (exists group,
     groups (system lonely) !! "G" = Some group
     /\ fst (breed (genes (system lonely)) (group, rng lonely))
        = Raise (ValueError InsufficientPopulation))
  /\ exists w',
       run_for_times Script (Some 3%Z) lonely = (Ok tt, w')
       /\ out w' = out lonely
                   ++ [BreedFailed (ValueError InsufficientPopulation);
                       BreedFailed (ValueError InsufficientPopulation);
                       BreedFailed (ValueError InsufficientPopulation)].
Proof.
  split.
  - eexists. split; vm_compute; reflexivity.
  - eexists. split; vm_compute; reflexivity.
Qed.

(** What [run_simulation] lets escape: the two errors raised before its
    [try] block, and exceptions that are not [ValueError]s. *)
Lemma run_simulation_raises args w x w' :
  run_simulation args w = (Raise x, w') ->
  x = ValueError NoGroupSelected \/ x = ValueError UnknownGroup
  \/ is_ValueError x = false.
Proof.
  unfold run_simulation. munfold. intros H.
  repeat (case_match; simplify_eq/=); auto.
Qed.

(** C2, as the code has it, for [main.py] run as a script (the global
    [system] is the interpreter).  [run_for_times count] invokes the [/run]
    command [count] times in sequence, not at all when [count] is not
    positive.  An error raised inside an iteration is caught and reported
    within that iteration and never propagates: a [ValueError] raised by
    [breed] is caught by [run_simulation], which reports a breeding
    failure and returns normally; whatever [run_simulation] raises (a
    missing group, or an exception that is not a [ValueError]) is caught
    and reported by [process_command].  So the call always returns
    normally, the final state is the [count]-fold iterate of a single
    [/run], and every iteration has printed at least one line. *)
Theorem run_for_times_runs_every_iteration (count : Z) (w : World) :
  run_for_times Script (Some count) w
  = (Ok tt, Nat.iter (Z.to_nat count) exec_run w)
  /\ length (out w) + Z.to_nat count
     <= length (out (Nat.iter (Z.to_nat count) exec_run w))
  /\ (forall w0 group_name group e st,
        current_group (system w0) = Some group_name ->
        group_name <> "" ->
        groups (system w0) !! group_name = Some group ->
        breed (genes (system w0)) (group, rng w0) = (Raise (ValueError e), st) ->
        run_simulation [] w0
        = (Ok tt,
           mkWorld (system (set_group group_name (fst st) w0)) (snd st)
                   (out w0 ++ [BreedFailed (ValueError e)])))
  /\ (forall w0 x w1,
        run_simulation [] w0 = (Raise x, w1) ->
        (x = ValueError NoGroupSelected \/ x = ValueError UnknownGroup
         \/ is_ValueError x = false)
        /\ process_run w0
           = (Ok tt, mkWorld (system w1) (rng w1) (out w1 ++ [ErrorReported x])))
  /\ (forall w0 w1,
        run_simulation [] w0 = (Ok tt, w1) -> process_run w0 = (Ok tt, w1)).
Proof.
  split; [|split; [|split; [|split]]].
  - unfold run_for_times. apply for_range_total.
    intros s. apply process_run_total.
  - induction (Z.to_nat count) as [|n IH]; [cbn; lia|].
    rewrite Nat.iter_succ.
    destruct (process_run_total (Nat.iter n exec_run w))
      as (_ & evs & -> & Hne).
    rewrite length_app. destruct evs; [done|]. cbn [length]. lia.
  - intros w0 group_name group e [g' t'] Hcur Hne Hgroup Hbreed.
    unfold run_simulation. munfold. rewrite Hcur.
    rewrite decide_False by exact Hne.
    rewrite Hgroup. rewrite Hgroup. rewrite Hbreed. reflexivity.
  - intros w0 x w1 Hrun. split; [eapply run_simulation_raises, Hrun|].
    unfold process_run, try_except. now rewrite Hrun.
  - intros w0 w1 Hrun. unfold process_run, try_except. now rewrite Hrun.
Qed.

(** Loaded as a module, the name [system] is unbound: the first iteration
    raises [NameError] before any [/run], and nothing is changed. *)
Lemma run_for_times_imported (count : Z) (w : World) :
  run_for_times Imported (Some count) w
  = if (0 <? count)%Z then (Raise (NameError "system"), w) else (Ok tt, w).
Proof.
  unfold run_for_times.
  destruct (Z.ltb_spec 0 count) as [Hpos|Hneg].
  - destruct (Z.to_nat count) as [|n] eqn:Hn; [lia|]. reflexivity.
  - now replace (Z.to_nat count) with 0 by lia.
Qed.

(** ** Locking the structure *)

(** The initialization loop fails as soon as it meets a symbol it has
    seen, or an unregistered one; it never touches the organisms. *)
Lemma initialize_loop_duplicate genes_dict cs :
  forall seen_genes self,
    (exists k c, cs !! (2 * k) = Some c /\ symbol_of c ∈ seen_genes)
    \/ (exists j k a b, j < k /\ cs !! (2 * j) = Some a
                        /\ cs !! (2 * k) = Some b
                        /\ symbol_of a = symbol_of b) ->
    exists e self',
      initialize_loop cs genes_dict seen_genes self = (Raise (ValueError e), self')
      /\ (exists s, e = DuplicateLocus s \/ e = UnknownGene s)
      /\ current_generation self' = current_generation self.
Proof.
  induction cs as [|a|a b l IH] using pair_ind; intros seen_genes self Hdup.
  - destruct Hdup as [(k & c & H & _)|(j & k & x & y & _ & H & _)];
      now rewrite lookup_nil in H.
  - destruct Hdup as [(k & c & H & Hin)|(j & k & x & y & Hlt & _ & H & _)].
    + destruct k as [|k]; [|replace (2 * S k) with (S (S (2 * k))) in H by lia;
                            discriminate].
      injection H as <-. cbn. rewrite decide_True by done.
      eexists _, _. split; [reflexivity|]. eauto.
    + destruct k as [|k]; [lia|].
      replace (2 * S k) with (S (S (2 * k))) in H by lia. discriminate.
  - cbn [initialize_loop].
    destruct (decide (symbol_of a ∈ seen_genes)) as [Hin|Hnin].
    { eexists _, _. split; [reflexivity|]. eauto. }
    destruct (genes_dict !! symbol_of a) as [gene|].
    2:{ eexists _, _. split; [reflexivity|]. eauto. }
    munfold.
    edestruct (IH ({[symbol_of a]} ∪ seen_genes)
                  (set_gene_structure (gene_structure self ++ [gene]) self))
      as (e & self' & -> & He & Hgen).
    2:{ eexists _, _. split; [reflexivity|]. split; [exact He | exact Hgen]. }
    destruct Hdup as [(k & c & H & Hin)|(j & k & x & y & Hlt & Hj & Hk & Hsym)].
    + destruct k as [|k]; [injection H as <-; contradiction|].
      replace (2 * S k) with (S (S (2 * k))) in H by lia.
      left. exists k, c. split; [exact H|].
      apply elem_of_union. now right.
    + destruct k as [|k]; [lia|].
      replace (2 * S k) with (S (S (2 * k))) in Hk by lia.
      destruct j as [|j].
      * injection Hj as <-. left. exists k, y. split; [exact Hk|].
        apply elem_of_union. left. now apply elem_of_singleton.
      * replace (2 * S j) with (S (S (2 * j))) in Hj by lia.
        right. exists j, k, x, y. repeat split; try done. lia.
Qed.

(** C9. Take a genotype that names the same gene symbol at two loci.
    Added to an empty population it is rejected by the structure
    initialization (as a duplicate symbol, or as an unknown gene when an
    earlier symbol is not registered) and the population stays empty.
    Added to a non-empty population whose locked length it matches, and
    accepted by the validator, it is appended: the duplicate-symbol check
    is not run again. *)
Theorem duplicate_symbol_checked_only_on_first_insert
    (genes_str : string) (genes_dict : gmap string Gene)
    (self : SimulationGroup) (j k : nat) (a b : ascii) :
  j < k ->
  chars genes_str !! (2 * j) = Some a ->
  chars genes_str !! (2 * k) = Some b ->
  symbol_of a = symbol_of b ->
  (current_generation self = [] ->
   exists e self',
     add_organism genes_str genes_dict self = (Raise (ValueError e), self')
     /\ (exists s, e = DuplicateLocus s \/ e = UnknownGene s)
     /\ current_generation self' = [])
  /\ (current_generation self <> [] ->
      validate genes_str genes_dict = Ok tt ->
      String.length genes_str = gene_length self ->
      add_organism genes_str genes_dict self
      = (Ok tt, set_current_generation
                  (current_generation self ++ [genes_str]) self)).
Proof.
  intros Hlt Hj Hk Hsym. split.
  - intros Hempty. unfold add_organism, initialize_structure. munfold.
    rewrite Hempty.
    edestruct (initialize_loop_duplicate genes_dict (chars genes_str) ∅
                 (set_gene_structure [] self))
      as (e & self' & -> & He & Hgen).
    { right. exists j, k, a, b. auto. }
    exists e, self'. split; [reflexivity|]. split; [exact He|].
    rewrite Hgen. exact Hempty.
  - intros Hne Hvalid Hlen. unfold add_organism. munfold.
    destruct (current_generation self) as [|g gs] eqn:Hgen; [done|].
    rewrite Hvalid. rewrite decide_False by (intros H; apply H; exact Hlen).
    now rewrite Hgen.
Qed.

Lemma duplicate_symbol_witness :
  (exists e self',
     add_organism "AAAA" (genes (system pea_world)) SimulationGroup_init
     = (Raise (ValueError e), self')
     /\ (exists s, e = DuplicateLocus s \/ e = UnknownGene s)
     /\ current_generation self' = [])
  /\ add_organism "AAAA" (genes (system two_loci)) (group_of "G" two_loci)
     = (Ok tt, set_current_generation
                 (current_generation (group_of "G" two_loci) ++ ["AAAA"])
                 (group_of "G" two_loci)).
Proof.
  split.
  - apply (duplicate_symbol_checked_only_on_first_insert
             "AAAA" (genes (system pea_world)) SimulationGroup_init
             0 1 "A"%char "A"%char);
      [lia | reflexivity | reflexivity | reflexivity | reflexivity].
  - apply (duplicate_symbol_checked_only_on_first_insert
             "AAAA" (genes (system two_loci)) (group_of "G" two_loci)
             0 1 "A"%char "A"%char);
      [lia | reflexivity | reflexivity | reflexivity
       | vm_compute; discriminate | vm_compute; reflexivity
       | vm_compute; reflexivity].
Defined.

(** ** What [del] does in general *)

(** X2. [/change group genotype del amount] on an existing group, with a
    genotype the validator accepts and of the locked length.  If the group
    holds fewer than [amount] copies the command fails with
    [InsufficientQuantity] and nothing changes.  Otherwise it succeeds, and
    the new population is the old one with every copy of the genotype
    removed, whatever [amount] is; the other organisms keep their order,
    and the structure, length, mode and history of the group stay. *)
Theorem del_removes_every_copy (group_name genotype : string) (amount : Z)
    (w : World) (group : SimulationGroup) :
  groups (system w) !! group_name = Some group ->
  validate genotype (genes (system w)) = Ok tt ->
  gene_length group = 0 \/ String.length genotype = gene_length group ->
  let copies :=
    length (List.filter (fun g => bool_decide (g = genotype))
                        (current_generation group)) in
  change_composition group_name genotype "del" amount w
  = if (Z.of_nat copies <? amount)%Z
    then (Raise (ValueError (InsufficientQuantity copies)), w)
    else (Ok tt,
          mkWorld
            (mkSystem (genes (system w))
               (<[group_name :=
                    set_current_generation
                      (List.filter (fun g => negb (bool_decide (g = genotype)))
                                   (current_generation group))
                      group]> (groups (system w)))
               (current_group (system w)))
            (rng w) (out w ++ [OrganismsDeleted amount])).
Proof.
  intros Hgroup Hvalid Hlen copies. unfold change_composition. munfold.
  rewrite Hgroup, Hvalid.
  assert (Hchk : (0 <? gene_length group)%nat
                 && negb (String.length genotype =? gene_length group)%nat
                 = false).
  { destruct Hlen as [->| ->]; [reflexivity|].
    rewrite Nat.eqb_refl. apply andb_false_r. }
  rewrite Hchk. cbn [decide]. 
  destruct (decide ("del" = "add")) as [Habs|_]; [discriminate|].
  destruct (decide ("del" = "del")) as [_|Habs]; [|done].
  fold copies.
  destruct (Z.of_nat copies <? amount)%Z eqn:Hcmp; [reflexivity|].
  rewrite Hgroup. rewrite slice_after_filter by exact Hcmp.
  reflexivity.
Qed.

Lemma del_removes_every_copy_witness :
  change_composition "G" "AA" "del" 2 three_AA
  = (Ok tt,
     mkWorld
       (mkSystem (genes (system three_AA))
          (<["G" := set_current_generation [] (group_of "G" three_AA)]>
             (groups (system three_AA)))
          (current_group (system three_AA)))
       (rng three_AA) (out three_AA ++ [OrganismsDeleted 2])).
Proof.
  apply (del_removes_every_copy "G" "AA" 2 three_AA (group_of "G" three_AA));
    [vm_compute; reflexivity | vm_compute; reflexivity
     | right; vm_compute; reflexivity].
Defined.

(** ** Shuffling *)

Lemma insert_swap_head {A} (t : list A) (j : nat) (a b : A) :
  t !! j = Some b -> b :: <[j:=a]> t ≡ₚ a :: t.
Proof.
  revert j. induction t as [|h t IH]; intros [|j] Hj; try discriminate.
  - injection Hj as ->. cbn. apply Permutation_swap.
  - cbn in *. etrans; [apply Permutation_swap|].
    etrans; [apply Permutation_skip, (IH j Hj)|]. apply Permutation_swap.
Qed.

Lemma swap_Permutation {A} (x : list A) (i j : nat) : swap x i j ≡ₚ x.
Proof.
  unfold swap.
  destruct (x !! i) as [a|] eqn:Hi; [|reflexivity].
  destruct (x !! j) as [b|] eqn:Hj; [|reflexivity].
  revert i j Hi Hj. induction x as [|h t IH]; intros [|i] [|j] Hi Hj;
    try discriminate; cbn in *.
  - now simplify_eq.
  - simplify_eq. now apply insert_swap_head.
  - simplify_eq. now apply insert_swap_head.
  - apply Permutation_skip. now apply IH.
Qed.

Lemma shuffle_from_Permutation {A} (i : nat) :
  forall (x : list A) (t : tape),
  exists y t', shuffle_from i x t = (Ok y, t') /\ y ≡ₚ x.
Proof.
  induction i as [|i IH]; intros x t.
  - exists x, t. split; reflexivity.
  - cbn [shuffle_from]. unfold bind.
    destruct (randbelow (S (S i)) t) as [[j|e] t1] eqn:Hr.
    + destruct (IH (swap x (S i) j) t1) as (y & t' & -> & Hy).
      exists y, t'. split; [reflexivity|].
      now rewrite Hy, swap_Permutation.
    + destruct t; discriminate.
Qed.

(** X3. [random.shuffle] never fails and returns a rearrangement of its
    argument: the same elements with the same multiplicities, whatever the
    generator draws. *)
Theorem shuffle_Permutation {A} (x : list A) (t : tape) :
  exists y t', shuffle x t = (Ok y, t') /\ y ≡ₚ x.
Proof. apply shuffle_from_Permutation. Qed.

(** ** Children *)

Lemma random_choice_pair {A} (a b : A) (t : tape) :
  exists x t', random_choice [a; b] t = (Ok x, t') /\ (x = a \/ x = b).
Proof.
  unfold random_choice, bind, randbelow. destruct t as [|n t].
  - exists a, []. split; [reflexivity | now left].
  - cbn [length].
    pose proof (Nat.mod_upper_bound n 2 ltac:(lia)) as Hlt.
    destruct (n mod 2) as [|[|k]]; [| |lia].
    + exists a, t. split; [reflexivity | now left].
    + exists b, t. split; [reflexivity | now right].
Qed.

Lemma draw_gametes_length genes_dict p1 :
  forall p2 t child_genes t',
    draw_gametes p1 p2 genes_dict t = (Ok child_genes, t') ->
    length child_genes = length p1.
Proof.
  induction p1 as [|a|a1 a2 p1 IH] using pair_ind; intros p2 t cg t' H.
  - now injection H as <- <-.
  - cbn in H. destruct (genes_dict !! symbol_of a); discriminate.
  - cbn [draw_gametes] in H.
    destruct (genes_dict !! symbol_of a1); [|discriminate].
    destruct p2 as [|b1 [|b2 p2]]; try discriminate.
    unfold bind in H.
    destruct (random_choice_pair a1 a2 t) as (g1 & t1 & Hg1 & _).
    rewrite Hg1 in H.
    destruct (random_choice_pair b1 b2 t1) as (g2 & t2 & Hg2 & _).
    rewrite Hg2 in H.
    destruct (draw_gametes p1 p2 genes_dict t2) as [[r|e] t3] eqn:Hrec;
      [|discriminate].
    injection H as <- <-. cbn. f_equal. f_equal. eapply IH, Hrec.
Qed.

Lemma sorted_pair_cases {A} (key : A -> bool) (c1 c2 : A) :
  sorted_by_flag key [c1; c2] = [c1; c2]
  \/ (sorted_by_flag key [c1; c2] = [c2; c1] /\ key c1 = true /\ key c2 = false).
Proof.
  unfold sorted_by_flag. cbn.
  destruct (key c1), (key c2); cbn; auto.
Qed.

Lemma sort_loci_length genes_dict child_genes :
  forall sorted_genes,
    sort_loci child_genes genes_dict = Ok sorted_genes ->
    length sorted_genes = length child_genes.
Proof.
  induction child_genes as [|a|c1 c2 rest IH] using pair_ind; intros sg H.
  - now injection H as <-.
  - cbn in H. destruct (genes_dict !! symbol_of a); discriminate.
  - cbn [sort_loci] in H.
    destruct (genes_dict !! symbol_of c1) as [gene|]; [|discriminate].
    destruct (sort_loci rest genes_dict) as [r|e] eqn:Hrec; [|discriminate].
    injection H as <-. rewrite length_app, (IH r eq_refl).
    destruct (sorted_pair_cases (fun x => bool_decide (x = recessive gene)) c1 c2)
      as [-> | [-> _]]; reflexivity.
Qed.

(** A child has the length of its first parent. *)
Lemma create_child_length genes_dict p1 p2 t child t' :
  _create_child p1 p2 genes_dict t = (Ok child, t') ->
  String.length child = String.length p1.
Proof.
  unfold _create_child. munfold. intros H.
  destruct (draw_gametes (chars p1) (chars p2) genes_dict t)
    as [[cg|e] t1] eqn:Hd; [|discriminate].
  destruct (sort_loci cg genes_dict) as [sg|e] eqn:Hs; [|discriminate].
  injection H as <- <-.
  rewrite length_join, (sort_loci_length _ _ _ Hs),
          (draw_gametes_length _ _ _ _ _ _ Hd).
  apply length_chars.
Qed.

(** ** Pairing the parents *)

Lemma consecutive_pairs_members {A} (l : list A) :
  Forall (fun pr => fst pr ∈ l /\ snd pr ∈ l) (consecutive_pairs l).
Proof.
  induction l as [|a|a b l IH] using pair_ind; cbn; try constructor.
  - cbn. split; set_solver.
  - eapply Forall_impl; [exact IH|]. cbn. intros pr [? ?]. split; set_solver.
Qed.

Lemma length_consecutive_pairs {A} (l : list A) :
  length (consecutive_pairs l) = length l / 2.
Proof.
  induction l as [|a|a b l IH] using pair_ind; cbn [consecutive_pairs length];
    try reflexivity.
  rewrite IH. change (S (S (length l))) with (1 * 2 + length l).
  now rewrite Nat.div_add_l by lia.
Qed.

Lemma pop_pairs_members {A} (l : list A) :
  Forall (fun pr => fst pr ∈ l /\ snd pr ∈ l) (pop_pairs l).
Proof.
  induction l as [|a|a b l IH] using pair_ind; cbn; try constructor.
  - cbn. split; set_solver.
  - eapply Forall_impl; [exact IH|]. cbn. intros pr [? ?]. split; set_solver.
Qed.

Lemma group_append_members p parent_groups :
  flat_map snd (group_append p parent_groups)
  ≡ₚ p :: flat_map snd parent_groups.
Proof.
  induction parent_groups as [|[k ms] rest IH]; cbn.
  - reflexivity.
  - destruct (decide (k = p)) as [->|Hne]; cbn.
    + rewrite <- app_assoc. cbn.
      now rewrite <- Permutation_middle.
    + rewrite IH. now rewrite <- Permutation_middle.
Qed.

Lemma group_parents_members parents :
  flat_map snd (group_parents parents) ≡ₚ parents.
Proof.
  unfold group_parents.
  enough (H : forall acc,
            flat_map snd (foldl (fun acc p => group_append p acc) acc parents)
            ≡ₚ flat_map snd acc ++ parents) by apply (H []).
  induction parents as [|p ps IH]; intros acc; cbn.
  - now rewrite app_nil_r.
  - rewrite IH, group_append_members. now rewrite <- Permutation_middle.
Qed.

Lemma cross_pairs_members parent_groups :
  Forall (fun pr => fst pr ∈ flat_map snd parent_groups
                    /\ snd pr ∈ flat_map snd parent_groups)
         (cross_pairs parent_groups).
Proof.
  induction parent_groups as [|[k ms] rest IH]; cbn [cross_pairs flat_map snd];
    [constructor|].
  rewrite !Forall_app. split; [|split].
  - apply Forall_forall. intros [x y] Hin.
    apply list_elem_of_In, in_flat_map in Hin as ([kj msj] & Hkj & Hxy).
    cbn in Hxy. apply list_elem_of_In in Hxy.
    pose proof (elem_of_zip_l _ _ _ _ Hxy) as Hx.
    pose proof (elem_of_zip_r _ _ _ _ Hxy) as Hy.
    cbn. split; [set_solver|].
    apply elem_of_app. right. apply list_elem_of_In, in_flat_map.
    exists (kj, msj). split; [exact Hkj|]. now apply list_elem_of_In.
  - eapply Forall_impl; [apply pop_pairs_members|].
    cbn. intros pr [H1 H2].
    apply list_elem_of_In, in_rev, list_elem_of_In in H1, H2. set_solver.
  - eapply Forall_impl; [exact IH|]. cbn. intros pr [? ?]. set_solver.
Qed.

(** ** One generation *)

Lemma create_children_spec genes_dict pairs :
  forall t next_gen t',
    create_children pairs genes_dict t = (Ok next_gen, t') ->
    Forall2 (child_of genes_dict) next_gen pairs.
Proof.
  induction pairs as [|[p1 p2] rest IH]; intros t ng t' H; cbn in H.
  - injection H as <- <-. constructor.
  - unfold bind in H.
    destruct (_create_child p1 p2 genes_dict t) as [[c|e] t1] eqn:Hc;
      [|discriminate].
    destruct (create_children rest genes_dict t1) as [[r|e] t2] eqn:Hr;
      [|discriminate].
    injection H as <- <-. constructor; [|eapply IH, Hr].
    exists t, t1. exact Hc.
Qed.

(** What a call of [breed] can do.  Either it raises and the group is
    untouched, or it replaces the generation by one child per retained
    pair of parents and logs the two sizes. *)
Lemma breed_cases genes_dict self t r self' t' :
  breed genes_dict (self, t) = (r, (self', t')) ->
  let parents := current_generation self in
  ((exists x, r = Raise x) /\ self' = self)
  \/ (r = Ok tt /\ 2 <= length parents
      /\ exists pairs next_gen,
           self' = set_current_generation next_gen
                     (set_breed_history
                        (breed_history self
                           ++ [(length parents, length next_gen)]) self)
           /\ Forall2 (child_of genes_dict) next_gen pairs
           /\ Forall (fun pr => fst pr ∈ parents /\ snd pr ∈ parents) pairs
           /\ length pairs
              = if decide (experiment_mode self = "cross")
                then Nat.min (length parents / 2)
                             (length (cross_pairs (group_parents parents)))
                else length parents / 2).
Proof.
  intros H parents. unfold breed in H. munfold.
  change (fst (self, t)) with self in H. change (snd (self, t)) with t in H.
  cbv beta iota in H. fold parents in H.
  destruct (Nat.ltb_spec (length parents) 2) as [Hlt|Hge].
  { injection H as <- <- <-. left. eauto. }
  destruct (decide (experiment_mode self = "cross")) as [Hmode|Hmode].
  - cbn [fst snd] in H.
    destruct (shuffle_Permutation (cross_pairs (group_parents parents)) t)
      as (pairs & t1 & Hsh & Hperm).
    rewrite Hsh in H.
    destruct (create_children (take (length parents / 2) pairs) genes_dict t1)
      as [[ng|e] t2] eqn:Hc.
    + injection H as <- <- <-. right. split; [reflexivity|]. split; [exact Hge|].
      exists (take (length parents / 2) pairs), ng.
      split; [reflexivity|]. split; [eapply create_children_spec, Hc|].
      split.
      * apply Forall_take. rewrite Hperm.
        eapply Forall_impl; [apply cross_pairs_members|].
        cbn. intros pr. now rewrite !group_parents_members.
      * rewrite length_take. now rewrite Hperm.
    + injection H as <- <- <-. left. eauto.
  - cbn [fst snd] in H.
    destruct (shuffle_Permutation parents t) as (shuffled & t1 & Hsh & Hperm).
    rewrite Hsh in H.
    destruct (create_children (consecutive_pairs shuffled) genes_dict t1)
      as [[ng|e] t2] eqn:Hc.
    + injection H as <- <- <-. right. split; [reflexivity|]. split; [exact Hge|].
      exists (consecutive_pairs shuffled), ng.
      split; [reflexivity|]. split; [eapply create_children_spec, Hc|].
      split.
      * eapply Forall_impl; [apply consecutive_pairs_members|].
        cbn. intros pr. now rewrite !Hperm.
      * rewrite length_consecutive_pairs. now rewrite Hperm.
    + injection H as <- <- <-. left. eauto.
Qed.
